(** * pipeline_plugin_i18n: locale context and translation registrar

    A shallow embedding of [src/pipeline_plugin_i18n/plugin.py] and
    [src/pipeline_plugin_i18n/resources/types.py].

    Python objects that the plugin shares with its callers (the caller's
    [translations] dict, the [Translation] dicts it holds, the
    [ERROR_TEMPLATES] table of every handler class and the [CURRENT_LOCALE]
    context variable) live in one explicit [World]; every method is a
    function of the world it runs in and returns the world it leaves. *)

From Stdlib Require Import Ascii String.
From stdpp Require Import base option functions list gmap strings.

Local Open Scope string_scope.
Local Open Scope list_scope.
Local Open Scope stdpp_scope.

(** ** resources/types.py *)

(** [Locale = Literal["en", "pl"]]: a [str] at run time, the [Literal] is
    only a static annotation. *)
Definition Locale : Type := string.

(** Dict objects are passed by reference. *)
Definition ref : Type := nat.

(** A logical flow of execution (a thread or an asyncio task), each with its
    own [contextvars.Context]. *)
Definition Flow : Type := nat.

(** Exceptions the modelled code can raise. *)
Inductive exn : Type :=
  | PipelinePluginI18nException (msg : string)
  | KeyError (key : string).

Inductive outcome (A : Type) : Type :=
  | Return (a : A)
  | Raise (e : exn).
Arguments Return {A} a.
Arguments Raise {A} e.

(** The double quote character of the f-string in [register_handler]. *)
Definition dquote : string := String "034"%char EmptyString.

(** [sub in msg] on Python strings. *)
Definition mentions (msg sub : string) : Prop :=
  ∃ pre post, msg = pre +:+ sub +:+ post.

Section Plugin.
(** The host framework's [HandlerMode] enum and its members' [.value]. *)
Context {HandlerMode : Type} `{Countable HandlerMode}.
Context (value : HandlerMode → string).
(** Handler classes (subclasses of [ConditionHandler] or [MatchHandler]),
    their [__name__], their instances, and what an error template
    renders. *)
Context {HandlerClass : Type} `{EqDecision HandlerClass}.
Context (__name__ : HandlerClass → string).
Context {Handler Payload : Type}.

(** [ConditionErrorTemplate]: a callable of one argument, the failed
    handler instance. *)
Definition ConditionErrorTemplate : Type := Handler → Payload.

(** [Translation = dict[Locale, ConditionErrorTemplate]] *)
Abbreviation Translation := (gmap Locale ConditionErrorTemplate).

(** [Translations = dict[HandlerMode, Translation]]: the items in
    insertion order, each value a reference to a [Translation] dict. *)
Abbreviation Translations := (list (HandlerMode * ref)).

(** What an [ERROR_TEMPLATES] slot holds: a template of the host, or the
    [partial(process_translation, translation=translation)] object that
    [register_handler] installs, which keeps a reference to the caller's
    [translation] dict. *)
Inductive Slot : Type :=
  | Template (t : ConditionErrorTemplate)
  | Partial (translation : ref).

Record World : Type := mkWorld {
  (** the value of the [CURRENT_LOCALE] context variable in the context
      of each flow, [None] where it was never set *)
  CURRENT_LOCALE : Flow → option Locale;
  (** the dict object that [handler.ERROR_TEMPLATES] resolves to for each
      handler class: attribute lookup goes through the MRO, so a class that
      defines no [ERROR_TEMPLATES] of its own resolves to the dict of the
      base class it inherits it from *)
  ERROR_TEMPLATES_of : HandlerClass → ref;
  (** the [ERROR_TEMPLATES] dict objects *)
  table_at : ref → gmap HandlerMode Slot;
  (** the [Translations] dict objects *)
  translations_at : ref → Translations;
  (** the [Translation] dict objects *)
  translation_at : ref → Translation;
}.

(** [handler.ERROR_TEMPLATES]: the table the attribute resolves to. *)
Definition ERROR_TEMPLATES (w : World) (handler : HandlerClass)
  : gmap HandlerMode Slot :=
  table_at w (ERROR_TEMPLATES_of w handler).

(** ** plugin.py, class PipelinePluginI18n *)

Definition BASE_LOCALE : Locale := "en".

(** [ContextVar.get(default)] and [ContextVar.set(value)] in the context of
    the calling flow. *)
Definition ContextVar_get (w : World) (flow : Flow) (default : Locale) : Locale :=
  match CURRENT_LOCALE w flow with
  | Some l => l
  | None => default
  end.

Definition ContextVar_set (w : World) (flow : Flow) (l : Locale) : World :=
  {| CURRENT_LOCALE := <[flow := Some l]> (CURRENT_LOCALE w);
     ERROR_TEMPLATES_of := ERROR_TEMPLATES_of w;
     table_at := table_at w;
     translations_at := translations_at w;
     translation_at := translation_at w |}.

(** [return cls.CURRENT_LOCALE.get(cls.BASE_LOCALE)] *)
Definition get_locale (w : World) (flow : Flow) : Locale :=
  ContextVar_get w flow BASE_LOCALE.

(** [cls.CURRENT_LOCALE.set(locale)]; the method returns [None]. *)
Definition set_locale (w : World) (flow : Flow) (locale : Locale) : World * unit :=
  (ContextVar_set w flow locale, tt).

(** Lines 68-73 of [process_translation]: the template it is about to
    call.  The default [translation[cls.BASE_LOCALE]] is an argument of
    [.get], so it is evaluated first and raises [KeyError] when the base
    locale is missing, whatever the current locale is. *)
Definition select_template (w : World) (flow : Flow) (translation : ref)
  : outcome ConditionErrorTemplate :=
  let locale := get_locale w flow in
  match translation_at w translation !! BASE_LOCALE with
  | None => Raise (KeyError BASE_LOCALE)
  | Some base =>
      Return (match translation_at w translation !! locale with
              | Some error_template => error_template
              | None => base
              end)
  end.

(** [process_translation(self, translation)]: line 75,
    [return error_template(self)]. *)
Definition process_translation (w : World) (flow : Flow) (self : Handler)
    (translation : ref) : outcome Payload :=
  match select_template w flow translation with
  | Return error_template => Return (error_template self)
  | Raise e => Raise e
  end.

(** The message of the exception raised at lines 79-81. *)
Definition missing_base_locale_message (handler : HandlerClass) (mode : HandlerMode)
  : string :=
  "Handler " +:+ dquote +:+ __name__ handler +:+ dquote +:+
  " is missing the " +:+ dquote +:+ BASE_LOCALE +:+ dquote +:+
  " base locale translation for " +:+ dquote +:+ value mode +:+ dquote +:+
  " mode.".

(** [handler.ERROR_TEMPLATES[mode] = partial(process_translation,
    translation=translation)]: an item assignment, in place, on the dict
    the attribute resolves to. *)
Definition install (w : World) (handler : HandlerClass) (mode : HandlerMode)
    (translation : ref) : World :=
  {| CURRENT_LOCALE := CURRENT_LOCALE w;
     ERROR_TEMPLATES_of := ERROR_TEMPLATES_of w;
     table_at :=
       <[ERROR_TEMPLATES_of w handler :=
           <[mode := Partial translation]> (ERROR_TEMPLATES w handler)]>
         (table_at w);
     translations_at := translations_at w;
     translation_at := translation_at w |}.

(** The loop of lines 77-85 over the remaining items: each item is checked
    and, when it has the base locale, installed before the next one is
    looked at. *)
Fixpoint register_items (w : World) (handler : HandlerClass) (items : Translations)
  : World * outcome unit :=
  match items with
  | [] => (w, Return tt)
  | (mode, translation) :: rest =>
      match translation_at w translation !! BASE_LOCALE with
      | None =>
          (w, Raise (PipelinePluginI18nException
                       (missing_base_locale_message handler mode)))
      | Some _ => register_items (install w handler mode translation) handler rest
      end
  end.

(** [register_handler(handler, translations)] *)
Definition register_handler (w : World) (handler : HandlerClass) (translations : ref)
  : World * outcome unit :=
  register_items w handler (translations_at w translations).

(** ** The host framework, as far as the plugin meets it *)

(** Calling what a slot holds with the handler instance as sole argument. *)
Definition call_slot (w : World) (flow : Flow) (slot : Slot) (self : Handler)
  : outcome Payload :=
  match slot with
  | Template t => Return (t self)
  | Partial translation => process_translation w flow self translation
  end.

(** ** Flows *)

(** What the flows of a program do to the locale context.  [Spawn] is the
    start of a flow that inherits a copy of its parent's context, as an
    asyncio task does. *)
Inductive event : Type :=
  | SetLocale (flow : Flow) (locale : Locale)
  | Spawn (parent child : Flow).

Definition step (w : World) (ev : event) : World :=
  match ev with
  | SetLocale flow locale => fst (set_locale w flow locale)
  | Spawn parent child =>
      {| CURRENT_LOCALE := <[child := CURRENT_LOCALE w parent]> (CURRENT_LOCALE w);
         ERROR_TEMPLATES_of := ERROR_TEMPLATES_of w;
         table_at := table_at w;
         translations_at := translations_at w;
         translation_at := translation_at w |}
  end.

Definition run (w : World) (trace : list event) : World := foldl step w trace.

(** The events that write the context of [flow]. *)
Definition writes (flow : Flow) (ev : event) : bool :=
  match ev with
  | SetLocale f _ => bool_decide (f = flow)
  | Spawn _ child => bool_decide (child = flow)
  end.

(** No event of [trace] writes the context of [flow]: [flow] does not call
    [set_locale], and it is not started anew from another flow's context. *)
Definition undisturbed (flow : Flow) (trace : list event) : Prop :=
  Forall (λ ev, writes flow ev = false) trace.

(** [flow] never called [set_locale] in [trace], and neither did, before
    [flow] inherited its context, any flow it descends from.  The trace is
    read from its last event backwards. *)
Fixpoint never_set_rev (rtrace : list event) (flow : Flow) : bool :=
  match rtrace with
  | [] => true
  | SetLocale f _ :: earlier =>
      if decide (f = flow) then false else never_set_rev earlier flow
  | Spawn parent child :: earlier =>
      if decide (child = flow) then never_set_rev earlier parent
      else never_set_rev earlier flow
  end.

Definition never_set (trace : list event) (flow : Flow) : bool :=
  never_set_rev (reverse trace) flow.

(** ** Vocabulary of the statements *)

(** [cls.BASE_LOCALE in translation] *)
Definition has_base_locale (w : World) (translation : ref) : Prop :=
  is_Some (translation_at w translation !! BASE_LOCALE).

(** The keys of a [Translations] dict, in iteration order; the keys of a
    dict are pairwise different. *)
Definition modes (items : Translations) : list HandlerMode := items.*1.

Definition well_formed (items : Translations) : Prop := NoDup (modes items).

(** The slot assignments of the loop alone, for [items] that all pass the
    check. *)
Definition install_all (w : World) (handler : HandlerClass) (items : Translations)
  : World :=
  foldl (λ w item, install w handler item.1 item.2) w items.

(** The slot table of [handler]. *)
Definition slots (w : World) (handler : HandlerClass) : gmap HandlerMode Slot :=
  ERROR_TEMPLATES w handler.

End Plugin.

(** ** A concrete program

    The handler classes, modes and dicts the examples below run on.  A mode
    is written as its [.value], a handler class as its [__name__], a handler
    instance as the name of the field it checks. *)

Definition tmpl_default : string → string := λ self, "invalid " +:+ self.
Definition tmpl_en : string → string := λ self, "missing " +:+ self.
Definition tmpl_pl : string → string := λ self, "brak " +:+ self.

(** The [Translation] dicts of the example, by address. *)
Definition example_translation (r : ref) : gmap Locale (string → string) :=
  match r with
  | 10 => {[ "en" := tmpl_en ]}
  | 11 => {[ "en" := tmpl_en; "pl" := tmpl_pl ]}
  | 12 => {[ "pl" := tmpl_pl ]}
  | _ => ∅
  end.

(** The [Translations] dicts of the example, by address:
    0 is [{Mode.MISSING: {"en": tmpl_en}}],
    1 is [{Mode.MISSING: {"en": tmpl_en, "pl": tmpl_pl}}],
    2 is [{Mode.MISSING: {"en": tmpl_en}, Mode.INVALID: {"pl": tmpl_pl}}],
    3 is [{Mode.MISSING: {"pl": tmpl_pl}}], and every other one is empty. *)
Definition example_translations (r : ref) : list (string * ref) :=
  match r with
  | 0 => [("MISSING", 10)]
  | 1 => [("MISSING", 11)]
  | 2 => [("MISSING", 10); ("INVALID", 12)]
  | 3 => [("MISSING", 12)]
  | _ => []
  end.

(** The handler classes of the example, by the dict their
    [ERROR_TEMPLATES] resolves to: [Base] defines one and its subclass [Sub]
    inherits it; [NotEmpty] and [IsEmail] define one each. *)
Definition example_table_of (handler : string) : ref :=
  if decide (handler = "Base") then 20
  else if decide (handler = "Sub") then 20
  else if decide (handler = "NotEmpty") then 21
  else if decide (handler = "IsEmail") then 22
  else 23.

(** No locale was set in any flow, and every table has the host's default
    template for each of its two modes. *)
Definition example_world : @World string _ _ string string string :=
  {| CURRENT_LOCALE := λ _, None;
     ERROR_TEMPLATES_of := example_table_of;
     table_at := λ _,
       {[ "MISSING" := Template tmpl_default; "INVALID" := Template tmpl_default ]};
     translations_at := example_translations;
     translation_at := example_translation |}.

(** [register_handler] of the example: [mode.value] and [handler.__name__]
    are the strings themselves. *)
Definition example_register (w : @World string _ _ string string string)
    (handler : string) (translations : ref) :=
  register_handler (λ mode : string, mode) (λ handler : string, handler)
    w handler translations.

(** A second program: two modes that both have the base locale, in the two
    iteration orders (4 and 5), next to the dicts of the first one. *)
Definition more_translations (r : ref) : list (string * ref) :=
  match r with
  | 4 => [("MISSING", 11); ("INVALID", 10)]
  | 5 => [("INVALID", 10); ("MISSING", 11)]
  | _ => example_translations r
  end.

Definition more_world : @World string _ _ string string string :=
  {| CURRENT_LOCALE := λ _, None;
     ERROR_TEMPLATES_of := example_table_of;
     table_at := λ _,
       {[ "MISSING" := Template tmpl_default; "INVALID" := Template tmpl_default ]};
     translations_at := more_translations;
     translation_at := example_translation |}.

(** The caller rebinds the contents of the [Translation] dict at [r]
    ([translation[locale] = template], [del translation[locale]]). *)
Definition caller_writes (w : @World string _ _ string string string) (r : ref)
    (contents : gmap Locale (string → string)) : @World string _ _ string string string :=
  {| CURRENT_LOCALE := CURRENT_LOCALE w;
     ERROR_TEMPLATES_of := ERROR_TEMPLATES_of w;
     table_at := table_at w;
     translations_at := translations_at w;
     translation_at := <[r := contents]> (translation_at w) |}.

(** * Properties *)

Lemma string_app_assoc (a b c : string) : (a +:+ b) +:+ c = a +:+ (b +:+ c).
Proof. induction a as [|ch a IH]; [done|]. exact (f_equal (String ch) IH). Qed.

Section Properties.
Context {HandlerMode : Type} `{Countable HandlerMode} (value : HandlerMode → string).
Context {HandlerClass : Type} `{EqDecision HandlerClass}.
Context (__name__ : HandlerClass → string).
Context {Handler Payload : Type}.

Local Abbreviation World := (@World HandlerMode _ _ HandlerClass Handler Payload).
Local Abbreviation register_items := (register_items value __name__).
Local Abbreviation register_handler := (register_handler value __name__).
Local Abbreviation message := (missing_base_locale_message value __name__).
Local Abbreviation ErrorTemplate := (@ConditionErrorTemplate Handler Payload).

Implicit Types (w : World) (handler : HandlerClass) (mode : HandlerMode).
Implicit Types (items : list (HandlerMode * ref)) (r translations : ref).

(** ** The exception message *)

Lemma message_mentions_name handler mode :
  mentions (message handler mode) (__name__ handler).
Proof.
  unfold missing_base_locale_message.
  exists ("Handler " +:+ dquote). eexists. reflexivity.
Qed.

Lemma message_mentions_base_locale handler mode :
  mentions (message handler mode) BASE_LOCALE.
Proof.
  unfold missing_base_locale_message.
  exists ("Handler " +:+ dquote +:+ __name__ handler +:+ dquote +:+
          " is missing the " +:+ dquote).
  eexists. rewrite !string_app_assoc. reflexivity.
Qed.

Lemma message_mentions_mode handler mode :
  mentions (message handler mode) (value mode).
Proof.
  unfold missing_base_locale_message.
  exists ("Handler " +:+ dquote +:+ __name__ handler +:+ dquote +:+
          " is missing the " +:+ dquote +:+ BASE_LOCALE +:+ dquote +:+
          " base locale translation for " +:+ dquote).
  eexists. rewrite !string_app_assoc. reflexivity.
Qed.

(** ** What the loop leaves alone *)

Lemma install_all_frame handler items w :
  CURRENT_LOCALE (install_all w handler items) = CURRENT_LOCALE w ∧
  translations_at (install_all w handler items) = translations_at w ∧
  translation_at (install_all w handler items) = translation_at w ∧
  ERROR_TEMPLATES_of (install_all w handler items) = ERROR_TEMPLATES_of w ∧
  ∀ other, ERROR_TEMPLATES_of w other ≠ ERROR_TEMPLATES_of w handler →
    ERROR_TEMPLATES (install_all w handler items) other = ERROR_TEMPLATES w other.
Proof.
  revert w. induction items as [|[mode r] items IH]; intros w; [done|].
  destruct (IH (install w handler mode r)) as (Hl & Hts & Ht & Hof & He).
  change (install_all w handler ((mode, r) :: items))
    with (install_all (install w handler mode r) handler items).
  rewrite Hl, Hts, Ht, Hof. repeat split; try done.
  intros other Hne. rewrite He by done. unfold ERROR_TEMPLATES. simpl.
  by rewrite fn_lookup_insert_ne.
Qed.

Lemma slots_install handler mode r w :
  slots (install w handler mode r) handler = <[mode := Partial r]> (slots w handler).
Proof. unfold slots, ERROR_TEMPLATES. simpl. by rewrite fn_lookup_insert. Qed.

(** A mode that is no key of [items] keeps its slot. *)
Lemma slots_install_all_other handler items w mode :
  mode ∉ modes items →
  slots (install_all w handler items) handler !! mode = slots w handler !! mode.
Proof.
  revert w. induction items as [|[m r] items IH]; intros w Hnotin; [done|].
  unfold modes in Hnotin. rewrite fmap_cons, not_elem_of_cons in Hnotin.
  destruct Hnotin as [Hne Hnotin].
  change (install_all w handler ((m, r) :: items))
    with (install_all (install w handler m r) handler items).
  rewrite IH by done. rewrite slots_install. by rewrite lookup_insert_ne.
Qed.

(** A key of well-formed [items] gets the resolver of its own translation. *)
Lemma slots_install_all_key handler items w mode r :
  well_formed items → (mode, r) ∈ items →
  slots (install_all w handler items) handler !! mode = Some (Partial r).
Proof.
  revert w. induction items as [|[m r'] items IH]; intros w Hwf Hin.
  - by apply elem_of_nil in Hin.
  - unfold well_formed, modes in Hwf. rewrite fmap_cons, NoDup_cons in Hwf.
    destruct Hwf as [Hfresh Hwf].
    change (install_all w handler ((m, r') :: items))
      with (install_all (install w handler m r') handler items).
    apply elem_of_cons in Hin as [Heq | Hin].
    + injection Heq as -> ->.
      rewrite slots_install_all_other by done.
      rewrite slots_install. by rewrite lookup_insert_eq.
    + by apply IH.
Qed.

(** ** The two ways the loop ends *)

(** Every item has the base locale: all of them are installed. *)
Lemma register_items_all handler items w :
  Forall (λ item, has_base_locale w item.2) items →
  register_items w handler items = (install_all w handler items, Return tt).
Proof.
  revert w. induction items as [|[mode r] items IH]; intros w Hall; [done|].
  apply Forall_cons in Hall as [[base Hbase] Hall]. simpl in *.
  rewrite Hbase. apply IH.
  eapply Forall_impl; [exact Hall|]. intros item Hitem. exact Hitem.
Qed.

(** Some item lacks the base locale: the items before the first such one
    are installed, and the loop ends there. *)
Lemma register_items_stop handler pre mode r post w :
  Forall (λ item, has_base_locale w item.2) pre →
  translation_at w r !! BASE_LOCALE = None →
  register_items w handler (pre ++ (mode, r) :: post) =
  (install_all w handler pre,
   Raise (PipelinePluginI18nException (message handler mode))).
Proof.
  revert w. induction pre as [|[m r'] pre IH]; intros w Hall Hnone.
  - simpl. by rewrite Hnone.
  - apply Forall_cons in Hall as [[base Hbase] Hall]. simpl in *.
    rewrite Hbase. apply IH; [|done].
    eapply Forall_impl; [exact Hall|]. intros item Hitem. exact Hitem.
Qed.

(** The first item without the base locale, if there is one. *)
Lemma first_missing w items :
  Forall (λ item, has_base_locale w item.2) items ∨
  ∃ pre mode r post,
    items = pre ++ (mode, r) :: post ∧
    Forall (λ item, has_base_locale w item.2) pre ∧
    translation_at w r !! BASE_LOCALE = None.
Proof.
  induction items as [|[mode r] items IH]; [by left|].
  destruct (translation_at w r !! BASE_LOCALE) as [base|] eqn:Hbase.
  - destruct IH as [Hall | (pre & m & r' & post & -> & Hpre & Hnone)].
    + left. apply Forall_cons. split; [|done]. by exists base.
    + right. exists ((mode, r) :: pre), m, r', post. repeat split; [|done].
      apply Forall_cons. split; [|done]. by exists base.
  - right. by exists [], mode, r, items.
Qed.

(** A call that returns has installed every item. *)
Lemma register_items_return handler items w w' :
  register_items w handler items = (w', Return tt) →
  Forall (λ item, has_base_locale w item.2) items ∧ w' = install_all w handler items.
Proof.
  intros Hreg.
  destruct (first_missing w items) as [Hall | (pre & m & r & post & -> & Hpre & Hnone)].
  - rewrite register_items_all in Hreg by done. by injection Hreg as <-.
  - rewrite register_items_stop in Hreg by done. discriminate.
Qed.

Lemma not_has_base_locale w r :
  translation_at w r !! BASE_LOCALE = None → ¬ has_base_locale w r.
Proof. intros Hnone [base Hbase]. congruence. Qed.

(** ** The registrar *)

(** C1 (as the code has it): when some mode's translation lacks the base
    locale, [register_handler] raises the configuration error for the first
    such mode in iteration order.  Checking and installing alternate, so by
    then the modes iterated before it have their resolvers installed; the
    slot of the offending mode, of every mode after it and of every mode
    outside the table is what it was. *)
Theorem register_handler_installs_up_to_first_missing w handler translations :
  well_formed (translations_at w translations) →
  (∃ mode r, (mode, r) ∈ translations_at w translations ∧
             translation_at w r !! BASE_LOCALE = None) →
  ∃ pre mode r post,
    translations_at w translations = pre ++ (mode, r) :: post ∧
    Forall (λ item, has_base_locale w item.2) pre ∧
    translation_at w r !! BASE_LOCALE = None ∧
    (register_handler w handler translations).2 =
      Raise (PipelinePluginI18nException (message handler mode)) ∧
    (∀ m r', (m, r') ∈ pre →
       slots (register_handler w handler translations).1 handler !! m =
       Some (Partial r')) ∧
    (∀ m, m ∈ modes ((mode, r) :: post) →
       slots (register_handler w handler translations).1 handler !! m =
       slots w handler !! m) ∧
    (∀ m, m ∉ modes (translations_at w translations) →
       slots (register_handler w handler translations).1 handler !! m =
       slots w handler !! m).
Proof.
  intros Hwf (m2 & r2 & Hin & Hnone2). unfold register_handler.
  destruct (first_missing w (translations_at w translations))
    as [Hall | (pre & mode & r & post & Hitems & Hpre & Hnone)].
  - rewrite Forall_forall in Hall. destruct (not_has_base_locale _ _ Hnone2).
    exact (Hall _ Hin).
  - exists pre, mode, r, post. rewrite Hitems in Hwf |- *.
    rewrite register_items_stop by done. simpl.
    unfold well_formed, modes in Hwf. rewrite fmap_app in Hwf.
    apply NoDup_app in Hwf as (Hwf_pre & Hdisjoint & _).
    repeat split; try done.
    + intros m r' Hm. by apply slots_install_all_key.
    + intros m Hm. apply slots_install_all_other. intros Hpre_m.
      exact (Hdisjoint _ Hpre_m Hm).
    + intros m Hm. apply slots_install_all_other. intros Hpre_m. apply Hm.
      unfold modes. rewrite fmap_app. apply elem_of_app. by left.
Qed.

(** C2: [register_handler] raises if and only if the translation of some
    mode lacks the base locale; what it raises then is the
    [PipelinePluginI18nException] whose message contains the name of the
    handler class and the value of an offending mode; when every mode's
    translation has the base locale it returns. *)
Theorem register_handler_raises_iff_base_locale_missing w handler translations :
  ((∃ e, (register_handler w handler translations).2 = Raise e) ↔
   (∃ mode r, (mode, r) ∈ translations_at w translations ∧
              translation_at w r !! BASE_LOCALE = None)) ∧
  (∀ e, (register_handler w handler translations).2 = Raise e →
     ∃ mode r, (mode, r) ∈ translations_at w translations ∧
               translation_at w r !! BASE_LOCALE = None ∧
               e = PipelinePluginI18nException (message handler mode) ∧
               mentions (message handler mode) (__name__ handler) ∧
               mentions (message handler mode) (value mode)) ∧
  ((∀ mode r, (mode, r) ∈ translations_at w translations → has_base_locale w r) →
   (register_handler w handler translations).2 = Return tt).
Proof.
  unfold register_handler.
  destruct (first_missing w (translations_at w translations))
    as [Hall | (pre & mode & r & post & Hitems & Hpre & Hnone)].
  - rewrite register_items_all by done. simpl. rewrite Forall_forall in Hall.
    split; [split|split].
    + intros [e He]. discriminate.
    + intros (mode & r & Hin & Hnone).
      destruct (not_has_base_locale _ _ Hnone). exact (Hall _ Hin).
    + intros e He. discriminate.
    + done.
  - rewrite Hitems, register_items_stop by done. simpl.
    assert ((mode, r) ∈ pre ++ (mode, r) :: post) as Hin.
    { apply elem_of_app. right. apply elem_of_cons. by left. }
    split; [split|split].
    + intros _. by exists mode, r.
    + intros _. by eexists.
    + intros e [= <-]. exists mode, r. repeat split; try done.
      * apply message_mentions_name.
      * apply message_mentions_mode.
    + intros Hall. destruct (not_has_base_locale _ _ Hnone). exact (Hall _ _ Hin).
Qed.

(** C3 (as the code has it): only the base locale is required.  With
    [{Mode.MISSING: {"en": tmpl_en}}] the call returns and installs the
    resolver of MISSING; with a translation that lacks ["en"], such as
    [{Mode.MISSING: {"pl": tmpl_pl}}], it raises the configuration error,
    whose message mentions ["MISSING"] and ["en"]. *)
Theorem register_handler_requires_only_base_locale
    w handler en_only pl_only mode r_en r_pl (t_en t_pl : ErrorTemplate) :
  value mode = "MISSING" →
  translations_at w en_only = [(mode, r_en)] →
  translation_at w r_en = {[ "en" := t_en ]} →
  translations_at w pl_only = [(mode, r_pl)] →
  translation_at w r_pl = {[ "pl" := t_pl ]} →
  register_handler w handler en_only = (install w handler mode r_en, Return tt) ∧
  (∃ msg, register_handler w handler pl_only =
            (w, Raise (PipelinePluginI18nException msg)) ∧
          mentions msg "MISSING" ∧ mentions msg "en").
Proof.
  intros Hvalue Hen Hr_en Hpl Hr_pl. unfold register_handler.
  rewrite Hen, Hpl. simpl. rewrite Hr_en, Hr_pl. split.
  - by rewrite lookup_singleton_eq.
  - rewrite lookup_singleton_ne by done.
    eexists. split; [reflexivity|]. split.
    + rewrite <- Hvalue. apply message_mentions_mode.
    + apply message_mentions_base_locale.
Qed.

(** C9 (as the code has it): whether it raises or returns,
    [register_handler] leaves the [CURRENT_LOCALE] of every flow, every
    [Translations] dict, every [Translation] dict and the dict each class's
    [ERROR_TEMPLATES] resolves to as they were.  It writes in place the one
    dict that [handler.ERROR_TEMPLATES] resolves to: the table of a class
    that resolves to another dict is what it was, and a class that resolves
    to the same dict, such as the base class a subclass inherits it from,
    has the table of [handler], writes included. *)
Theorem register_handler_frame_up_to_shared_table w handler translations :
  CURRENT_LOCALE (register_handler w handler translations).1 = CURRENT_LOCALE w ∧
  translations_at (register_handler w handler translations).1 = translations_at w ∧
  translation_at (register_handler w handler translations).1 = translation_at w ∧
  ERROR_TEMPLATES_of (register_handler w handler translations).1 =
    ERROR_TEMPLATES_of w ∧
  (∀ other, ERROR_TEMPLATES_of w other ≠ ERROR_TEMPLATES_of w handler →
     ERROR_TEMPLATES (register_handler w handler translations).1 other =
     ERROR_TEMPLATES w other) ∧
  (∀ other, ERROR_TEMPLATES_of w other = ERROR_TEMPLATES_of w handler →
     ERROR_TEMPLATES (register_handler w handler translations).1 other =
     ERROR_TEMPLATES (register_handler w handler translations).1 handler).
Proof.
  unfold register_handler.
  assert (∃ pre, (register_items w handler (translations_at w translations)).1 =
                 install_all w handler pre) as [pre ->].
  { destruct (first_missing w (translations_at w translations))
      as [Hall | (pre & mode & r & post & Hitems & Hpre & Hnone)].
    - eexists. by rewrite register_items_all.
    - exists pre. by rewrite Hitems, register_items_stop. }
  destruct (install_all_frame handler pre w) as (Hl & Hts & Ht & Hof & He).
  repeat split; try done.
  intros other Hshared. unfold ERROR_TEMPLATES. by rewrite Hof, Hshared.
Qed.

(** C10: with an empty [translations] the call returns and changes nothing;
    after any call that returns, the slot of a mode that is no key of
    [translations] holds what it held before. *)
Theorem register_handler_keeps_other_modes w handler translations :
  (translations_at w translations = [] →
   register_handler w handler translations = (w, Return tt)) ∧
  (∀ w', register_handler w handler translations = (w', Return tt) →
     ∀ mode, mode ∉ modes (translations_at w translations) →
       slots w' handler !! mode = slots w handler !! mode).
Proof.
  unfold register_handler. split.
  - by intros ->.
  - intros w' Hreg mode Hmode.
    apply register_items_return in Hreg as [_ ->].
    by apply slots_install_all_other.
Qed.

(** ** The resolver *)

Lemma registered_slot w w1 handler translations mode r :
  well_formed (translations_at w translations) →
  register_handler w handler translations = (w1, Return tt) →
  (mode, r) ∈ translations_at w translations →
  slots w1 handler !! mode = Some (Partial r) ∧ has_base_locale w r.
Proof.
  intros Hwf Hreg Hin. apply register_items_return in Hreg as [Hall ->].
  split; [by apply slots_install_all_key|].
  rewrite Forall_forall in Hall. exact (Hall _ Hin).
Qed.

(** C4: after a registration that returned, in any later world in which the
    [Translation] dict of a registered mode still holds what it held, and
    for any flow whose current locale is no key of that dict, calling the
    slot of that mode with a handler instance returns what the dict's
    base-locale template returns for that instance. *)
Theorem resolver_falls_back_to_base_locale
    w w1 w2 handler translations mode r flow (self : Handler) :
  well_formed (translations_at w translations) →
  register_handler w handler translations = (w1, Return tt) →
  (mode, r) ∈ translations_at w translations →
  translation_at w2 r = translation_at w r →
  translation_at w r !! get_locale w2 flow = None →
  ∃ slot base,
    slots w1 handler !! mode = Some slot ∧
    translation_at w r !! BASE_LOCALE = Some base ∧
    call_slot w2 flow slot self = Return (base self).
Proof.
  intros Hwf Hreg Hin Hsame Hnone.
  destruct (registered_slot _ _ _ _ _ _ Hwf Hreg Hin) as [Hslot [base Hbase]].
  exists (Partial r), base. repeat split; try done.
  unfold call_slot, process_translation, select_template. cbv zeta.
  by rewrite Hsame, Hbase, Hnone.
Qed.

(** C5: after a registration that returned, in any later world in which the
    [Translation] dict of a registered mode still holds what it held, and
    for any flow whose current locale is a key of that dict, the resolver
    in the slot of that mode selects the template bound to the current
    locale, calls it with the handler instance and returns its result. *)
Theorem resolver_uses_current_locale
    w w1 w2 handler translations mode r flow (self : Handler)
    (template : ErrorTemplate) :
  well_formed (translations_at w translations) →
  register_handler w handler translations = (w1, Return tt) →
  (mode, r) ∈ translations_at w translations →
  translation_at w2 r = translation_at w r →
  translation_at w r !! get_locale w2 flow = Some template →
  slots w1 handler !! mode = Some (Partial r) ∧
  select_template w2 flow r = Return template ∧
  call_slot w2 flow (Partial r) self = Return (template self).
Proof.
  intros Hwf Hreg Hin Hsame Hsome.
  destruct (registered_slot _ _ _ _ _ _ Hwf Hreg Hin) as [Hslot [base Hbase]].
  assert (select_template w2 flow r = Return template) as Hselect.
  { unfold select_template. cbv zeta. by rewrite Hsame, Hbase, Hsome. }
  repeat split; try done.
  unfold call_slot, process_translation. by rewrite Hselect.
Qed.

(** ** The locale context *)

Lemma run_snoc w trace ev : run w (trace ++ [ev]) = step (run w trace) ev.
Proof. unfold run. by rewrite foldl_app. Qed.

(** Events that do not write the context of [flow] leave its locale. *)
Lemma step_undisturbed w ev flow :
  writes flow ev = false →
  CURRENT_LOCALE (step w ev) flow = CURRENT_LOCALE w flow.
Proof.
  destruct ev as [f l | parent child]; simpl; intros Hwrites;
    apply bool_decide_eq_false in Hwrites; by rewrite fn_lookup_insert_ne.
Qed.

Lemma run_undisturbed w trace flow :
  undisturbed flow trace →
  CURRENT_LOCALE (run w trace) flow = CURRENT_LOCALE w flow.
Proof.
  induction trace as [|ev trace IH] using rev_ind; intros Hquiet; [done|].
  apply Forall_app in Hquiet as [Hquiet Hev]. rewrite Forall_singleton in Hev.
  rewrite run_snoc. rewrite (step_undisturbed _ _ _ Hev). by apply IH.
Qed.

(** A flow that neither set a locale nor inherited one has none. *)
Lemma run_never_set w trace flow :
  (∀ f, CURRENT_LOCALE w f = None) →
  never_set trace flow = true →
  CURRENT_LOCALE (run w trace) flow = None.
Proof.
  intros Hfresh. revert flow.
  induction trace as [|ev trace IH] using rev_ind; intros flow Hnever; [done|].
  unfold never_set in Hnever. rewrite reverse_snoc in Hnever.
  rewrite run_snoc. destruct ev as [f l | parent child]; simpl in *.
  - destruct (decide (f = flow)) as [|Hne]; [done|].
    rewrite fn_lookup_insert_ne by done. by apply IH.
  - destruct (decide (child = flow)) as [->|Hne].
    + rewrite fn_lookup_insert. by apply IH.
    + rewrite fn_lookup_insert_ne by done. by apply IH.
Qed.

(** C6: [get_locale] returns a locale in every state of the context: the
    base locale where none is set, the one that is set otherwise.  In a
    program whose flows all start without a locale, a flow that never called
    [set_locale], and whose ancestors had not when it inherited from them,
    reads exactly ["en"]. *)
Theorem get_locale_defaults_to_base_locale (w : World) trace flow :
  (∀ f, CURRENT_LOCALE w f = None) →
  never_set trace flow = true →
  get_locale (run w trace) flow = "en" ∧
  (∀ (w' : World) f, CURRENT_LOCALE w' f = None → get_locale w' f = "en") ∧
  (∀ (w' : World) f l, CURRENT_LOCALE w' f = Some l → get_locale w' f = l).
Proof.
  intros Hfresh Hnever. unfold get_locale, ContextVar_get.
  rewrite run_never_set by done. repeat split.
  - by intros w' f ->.
  - by intros w' f l ->.
Qed.

(** C7: [set_locale] returns [None] for every locale, and from then on
    [get_locale] in the same flow returns that locale, for as long as the
    flow does not call [set_locale] again. *)
Theorem set_locale_then_get_locale (w : World) flow locale trace :
  undisturbed flow trace →
  (set_locale w flow locale).2 = tt ∧
  get_locale (set_locale w flow locale).1 flow = locale ∧
  get_locale (run (set_locale w flow locale).1 trace) flow = locale.
Proof.
  intros Hquiet. unfold get_locale, ContextVar_get.
  rewrite run_undisturbed by done. simpl.
  by rewrite fn_lookup_insert.
Qed.

(** C8: flow [B] has no locale and never calls [set_locale]; flow [A], a
    different flow, calls [set_locale("pl")] at some point of the program.
    Whenever [B] calls [get_locale], before or after the call of [A], it
    reads the base locale. *)
Theorem locale_isolated_between_flows (w : World) A B before after seen :
  A ≠ B →
  CURRENT_LOCALE w B = None →
  undisturbed B before →
  undisturbed B after →
  seen `prefix_of` before ++ SetLocale A "pl" :: after →
  get_locale (run w seen) B = "en".
Proof.
  intros Hne Hnone Hbefore Hafter [rest Hseen].
  assert (undisturbed B (before ++ SetLocale A "pl" :: after)) as Hall.
  { apply Forall_app. split; [done|]. apply Forall_cons. split; [|done].
    simpl. by apply bool_decide_eq_false. }
  rewrite Hseen in Hall. apply Forall_app in Hall as [Hquiet _].
  unfold get_locale, ContextVar_get. by rewrite run_undisturbed, Hnone.
Qed.

(** ** Registering more than once *)

(** What the loop leaves in the slots of its modes does not depend on what
    was there. *)
Lemma install_all_agree handler items w w' :
  (∀ m, m ∉ modes items → slots w handler !! m = slots w' handler !! m) →
  slots (install_all w handler items) handler =
  slots (install_all w' handler items) handler.
Proof.
  revert w w'. induction items as [|[m0 r0] items IH]; intros w w' Hagree.
  - apply map_eq. intros m. apply Hagree. apply not_elem_of_nil.
  - change (install_all w handler ((m0, r0) :: items))
      with (install_all (install w handler m0 r0) handler items).
    change (install_all w' handler ((m0, r0) :: items))
      with (install_all (install w' handler m0 r0) handler items).
    apply IH. intros m Hm. rewrite !slots_install.
    destruct (decide (m0 = m)) as [->|Hne].
    + by rewrite !lookup_insert_eq.
    + rewrite !lookup_insert_ne by done. apply Hagree.
      unfold modes. rewrite fmap_cons, not_elem_of_cons. by split.
Qed.

Lemma has_base_locale_same w w' items :
  translation_at w' = translation_at w →
  Forall (λ item, has_base_locale w item.2) items →
  Forall (λ item, has_base_locale w' item.2) items.
Proof.
  intros Hsame Hall. eapply Forall_impl; [exact Hall|].
  intros item. unfold has_base_locale. by rewrite Hsame.
Qed.

(** Whatever the outcome, the call has run the slot assignments of some
    items of the table, and nothing else. *)
Lemma register_items_installed handler items w :
  ∃ pre, (register_items w handler items).1 = install_all w handler pre ∧
         ∀ m, m ∈ modes pre → m ∈ modes items.
Proof.
  destruct (first_missing w items) as [Hall | (pre & m & r & post & -> & Hpre & Hnone)].
  - exists items. by rewrite register_items_all.
  - exists pre. rewrite register_items_stop by done. split; [done|].
    intros m' Hm'. unfold modes. rewrite fmap_app. apply elem_of_app. by left.
Qed.

(** What a slot returns when called depends on the world only through the
    caller's locale and the [Translation] dicts. *)
Lemma call_slot_ext w w' flow slot (self : Handler) :
  CURRENT_LOCALE w' flow = CURRENT_LOCALE w flow →
  translation_at w' = translation_at w →
  call_slot w' flow slot self = call_slot w flow slot self.
Proof.
  intros Hlocale Hdicts. destruct slot as [t | r]; [done|].
  unfold call_slot, process_translation, select_template, get_locale, ContextVar_get.
  by rewrite Hlocale, Hdicts.
Qed.

(** X1: a second registration for the same handler class overrides the
    first one mode by mode: a mode of the second table gets the resolver of
    the second table, a mode that only the first table has keeps the
    resolver of the first, any other mode keeps what it had at the start. *)
Theorem register_handler_twice w w1 w2 handler first second :
  well_formed (translations_at w first) →
  well_formed (translations_at w second) →
  register_handler w handler first = (w1, Return tt) →
  register_handler w1 handler second = (w2, Return tt) →
  (∀ m r, (m, r) ∈ translations_at w second →
     slots w2 handler !! m = Some (Partial r)) ∧
  (∀ m r, (m, r) ∈ translations_at w first →
     m ∉ modes (translations_at w second) →
     slots w2 handler !! m = Some (Partial r)) ∧
  (∀ m, m ∉ modes (translations_at w first) →
     m ∉ modes (translations_at w second) →
     slots w2 handler !! m = slots w handler !! m).
Proof.
  intros Hwf1 Hwf2 Hreg1 Hreg2. unfold register_handler in *.
  apply register_items_return in Hreg1 as [_ ->].
  destruct (install_all_frame handler (translations_at w first) w)
    as (_ & Hdicts & _ & _).
  rewrite Hdicts in Hreg2. apply register_items_return in Hreg2 as [_ ->].
  repeat split.
  - intros m r Hin. by apply slots_install_all_key.
  - intros m r Hin Hnotin. rewrite slots_install_all_other by done.
    by apply slots_install_all_key.
  - intros m Hnot1 Hnot2. by rewrite !slots_install_all_other.
Qed.

(** X2: registering the same table a second time returns again.  The
    resolvers of the second call are bound to the same dicts as those of
    the first: every slot of the handler class is occupied exactly when it
    was, and what it holds returns, for every handler instance, in every
    flow and every world, what the content left by the first registration
    returns. *)
Theorem register_handler_again_same_behaviour w w1 handler translations :
  register_handler w handler translations = (w1, Return tt) →
  ∃ w2, register_handler w1 handler translations = (w2, Return tt) ∧
    ∀ mode,
      match slots w1 handler !! mode, slots w2 handler !! mode with
      | Some before, Some after =>
          ∀ (w' : World) flow (self : Handler),
            call_slot w' flow after self = call_slot w' flow before self
      | None, None => True
      | _, _ => False
      end.
Proof.
  intros Hreg. unfold register_handler in *.
  apply register_items_return in Hreg as [Hall ->].
  destruct (install_all_frame handler (translations_at w translations) w)
    as (_ & Hdicts & Hdict & _).
  rewrite Hdicts. eexists. split.
  - apply register_items_all. by apply (has_base_locale_same w).
  - intros mode.
    rewrite (install_all_agree handler (translations_at w translations)
               (install_all w handler (translations_at w translations)) w).
    + by destruct (slots _ handler !! mode).
    + intros m Hm. by apply slots_install_all_other.
Qed.

(** X3: a call that raised, or any earlier call, leaves no trace once a
    table that has all of its modes is registered: the slot table is the
    one that registering this table alone gives. *)
Theorem register_handler_after_earlier_call w w_alone handler earlier later :
  (∀ m, m ∈ modes (translations_at w earlier) → m ∈ modes (translations_at w later)) →
  register_handler w handler later = (w_alone, Return tt) →
  ∃ w_both,
    register_handler (register_handler w handler earlier).1 handler later =
      (w_both, Return tt) ∧
    slots w_both handler = slots w_alone handler.
Proof.
  intros Hcover Hreg. unfold register_handler in *.
  apply register_items_return in Hreg as [Hall ->].
  destruct (register_items_installed handler (translations_at w earlier) w)
    as (pre & -> & Hpre).
  destruct (install_all_frame handler pre w) as (_ & Hdicts & Hdict & _).
  rewrite Hdicts. eexists. split.
  - apply register_items_all. by apply (has_base_locale_same w).
  - apply install_all_agree. intros m Hm. apply slots_install_all_other.
    intros Hin. apply Hm, Hcover, Hpre, Hin.
Qed.

(** X4: when the call returns, the slot table it leaves does not depend on
    the iteration order of [translations]: a dict with the same items in
    another order registers as well and gives the same table. *)
Theorem register_handler_order_irrelevant w w1 handler translations reordered :
  well_formed (translations_at w translations) →
  translations_at w reordered ≡ₚ translations_at w translations →
  register_handler w handler translations = (w1, Return tt) →
  ∃ w2, register_handler w handler reordered = (w2, Return tt) ∧
        slots w2 handler = slots w1 handler.
Proof.
  intros Hwf Hperm Hreg. unfold register_handler in *.
  apply register_items_return in Hreg as [Hall ->].
  assert (well_formed (translations_at w reordered)) as Hwf'.
  { unfold well_formed, modes in *. by rewrite Hperm. }
  eexists. split.
  - apply register_items_all. by rewrite Hperm.
  - apply map_eq. intros m.
    destruct (decide (m ∈ modes (translations_at w translations))) as [Hin|Hnotin].
    + unfold modes in Hin. apply list_elem_of_fmap in Hin as ([m' r] & -> & Hin).
      simpl. rewrite (slots_install_all_key _ _ _ _ r Hwf Hin).
      apply slots_install_all_key; [done|]. by rewrite Hperm.
    + rewrite !slots_install_all_other; [done..|].
      unfold modes in *. by rewrite Hperm.
Qed.

(** X5: whether it raises or returns, [register_handler] does not change
    what any slot content returns when called: a host template or a resolver
    installed before gives the same result in the world the call leaves. *)
Theorem register_handler_keeps_slot_results
    w handler translations flow slot (self : Handler) :
  call_slot (register_handler w handler translations).1 flow slot self =
  call_slot w flow slot self.
Proof.
  unfold register_handler.
  destruct (register_items_installed handler (translations_at w translations) w)
    as (pre & -> & _).
  destruct (install_all_frame handler pre w) as (Hlocale & _ & Hdict & _).
  apply call_slot_ext; [by rewrite Hlocale | done].
Qed.

(** ** The resolver and the caller's dict *)


(** X7: in a flow that has no locale, the resolver of a registered mode
    returns what the base-locale template returns. *)
Theorem registered_resolver_without_locale
    w w1 w2 handler translations mode r flow (self : Handler) :
  well_formed (translations_at w translations) →
  register_handler w handler translations = (w1, Return tt) →
  (mode, r) ∈ translations_at w translations →
  translation_at w2 r = translation_at w r →
  CURRENT_LOCALE w2 flow = None →
  ∃ base : ErrorTemplate,
    translation_at w r !! "en" = Some base ∧
    call_slot w2 flow (Partial r) self = Return (base self).
Proof.
  intros Hwf Hreg Hin Hsame Hunset.
  destruct (registered_slot _ _ _ _ _ _ Hwf Hreg Hin) as [_ [base Hbase]].
  exists base. split; [done|].
  unfold call_slot, process_translation, select_template, get_locale, ContextVar_get.
  cbv zeta. by rewrite Hunset, Hsame, Hbase.
Qed.

(** X8: the resolver keeps a reference to the caller's dict and looks the
    base locale up on every call.  When the base-locale entry is gone from
    the dict after the registration, calling the slot raises [KeyError] for
    every current locale, also one that the dict has an entry for. *)
Theorem registered_resolver_raises_without_base_locale
    w w1 w2 handler translations mode r flow (self : Handler) :
  well_formed (translations_at w translations) →
  register_handler w handler translations = (w1, Return tt) →
  (mode, r) ∈ translations_at w translations →
  translation_at w2 r !! BASE_LOCALE = None →
  slots w1 handler !! mode = Some (Partial r) ∧
  call_slot w2 flow (Partial r) self = Raise (KeyError "en").
Proof.
  intros Hwf Hreg Hin Hgone.
  destruct (registered_slot _ _ _ _ _ _ Hwf Hreg Hin) as [Hslot _].
  split; [done|].
  unfold call_slot, process_translation, select_template. cbv zeta.
  by rewrite Hgone.
Qed.

(** X9: an entry that the caller puts into the dict after the registration
    is what the resolver uses from then on: with the current locale bound to
    a new template, calling the slot returns what that template returns. *)
Theorem registered_resolver_reads_dict_at_call_time
    w w1 w2 handler translations mode r flow (self : Handler)
    (template : ErrorTemplate) :
  well_formed (translations_at w translations) →
  register_handler w handler translations = (w1, Return tt) →
  (mode, r) ∈ translations_at w translations →
  translation_at w2 r = <[get_locale w2 flow := template]> (translation_at w r) →
  slots w1 handler !! mode = Some (Partial r) ∧
  call_slot w2 flow (Partial r) self = Return (template self).
Proof.
  intros Hwf Hreg Hin Hput.
  destruct (registered_slot _ _ _ _ _ _ Hwf Hreg Hin) as [Hslot [base Hbase]].
  split; [done|].
  assert (is_Some (translation_at w2 r !! BASE_LOCALE)) as [base' Hbase'].
  { rewrite Hput. rewrite lookup_insert. case_decide; by eexists. }
  assert (translation_at w2 r !! get_locale w2 flow = Some template) as Hnew.
  { rewrite Hput. apply lookup_insert_eq. }
  unfold call_slot, process_translation, select_template. cbv zeta.
  by rewrite Hbase', Hnew.
Qed.

(** ** The resolver and the other flows *)

Lemma run_translation_at (w : World) trace :
  translation_at (run w trace) = translation_at w.
Proof.
  induction trace as [|ev trace IH] using rev_ind; [done|].
  rewrite run_snoc. by destruct ev.
Qed.

(** X10: what a slot returns in one flow does not change with the
    [set_locale] calls of other flows, nor with flows that start from a
    copy of its context. *)
Theorem resolver_isolated_between_flows (w : World) trace flow slot (self : Handler) :
  undisturbed flow trace →
  call_slot (run w trace) flow slot self = call_slot w flow slot self.
Proof.
  intros Hquiet. apply call_slot_ext.
  - by apply run_undisturbed.
  - apply run_translation_at.
Qed.

(** ** The exception message, again *)

Lemma string_length_app (a c : string) :
  String.length (a +:+ c) = String.length a + String.length c.
Proof. induction a as [|ch a IH]; [done|]. exact (f_equal S IH). Qed.

Lemma string_app_inj_r (a b c : string) : a +:+ c = b +:+ c → a = b.
Proof.
  revert b. induction a as [|ch a IH]; intros [|ch' b] Heq.
  - done.
  - apply (f_equal String.length) in Heq.
    rewrite !string_length_app in Heq. simpl in Heq. lia.
  - apply (f_equal String.length) in Heq.
    rewrite !string_length_app in Heq. simpl in Heq. lia.
  - change (String ch (a +:+ c) = String ch' (b +:+ c)) in Heq.
    injection Heq as -> Heq. f_equal. by apply IH.
Qed.

(** X11: for one handler class, the message of the configuration error
    tells the offending mode: two modes with the same message have the same
    [.value]. *)
Theorem message_determines_mode handler mode mode' :
  missing_base_locale_message value __name__ handler mode =
  missing_base_locale_message value __name__ handler mode' →
  value mode = value mode'.
Proof.
  unfold missing_base_locale_message. intros Heq.
  do 10 apply (inj (String.app _)) in Heq.
  by apply string_app_inj_r in Heq.
Qed.

End Properties.

(** * The properties on the concrete program *)

Local Abbreviation example_value := (λ mode : string, mode).
Local Abbreviation example_name := (λ handler : string, handler).

(** C1, as stated, fails: MISSING has the base locale and comes first,
    INVALID lacks it.  The call raises, and the slot of MISSING already
    holds the resolver instead of the host's template. *)
Lemma all_or_nothing_counterexample :
  ("MISSING", 10) ∈ translations_at example_world 2 ∧
  is_Some (translation_at example_world 10 !! "en") ∧
  ("INVALID", 12) ∈ translations_at example_world 2 ∧
  translation_at example_world 12 !! "en" = None ∧
  (∃ msg, (example_register example_world "NotEmpty" 2).2 =
          Raise (PipelinePluginI18nException msg)) ∧
  slots example_world "NotEmpty" !! "MISSING" = Some (Template tmpl_default) ∧
  slots (example_register example_world "NotEmpty" 2).1 "NotEmpty" !! "MISSING" =
    Some (Partial 10) ∧
  ERROR_TEMPLATES (example_register example_world "NotEmpty" 2).1 "NotEmpty" ≠
    ERROR_TEMPLATES example_world "NotEmpty".
Proof.
  repeat split.
  - compute_done.
  - by eexists.
  - compute_done.
  - by eexists.
  - intros Heq. apply (f_equal (λ table, table !! "MISSING")) in Heq.
    vm_compute in Heq. discriminate.
Qed.

Lemma register_handler_installs_up_to_first_missing_witness :
  well_formed (translations_at example_world 2) ∧
  (∃ mode r, (mode, r) ∈ translations_at example_world 2 ∧
             translation_at example_world r !! BASE_LOCALE = None) ∧
  ∃ pre mode r post,
    translations_at example_world 2 = pre ++ (mode, r) :: post ∧
    Forall (λ item, has_base_locale example_world item.2) pre ∧
    translation_at example_world r !! BASE_LOCALE = None ∧
    (example_register example_world "NotEmpty" 2).2 =
      Raise (PipelinePluginI18nException
               (missing_base_locale_message example_value example_name "NotEmpty" mode)) ∧
    (∀ m r', (m, r') ∈ pre →
       slots (example_register example_world "NotEmpty" 2).1 "NotEmpty" !! m =
       Some (Partial r')) ∧
    (∀ m, m ∈ modes ((mode, r) :: post) →
       slots (example_register example_world "NotEmpty" 2).1 "NotEmpty" !! m =
       slots example_world "NotEmpty" !! m) ∧
    (∀ m, m ∉ modes (translations_at example_world 2) →
       slots (example_register example_world "NotEmpty" 2).1 "NotEmpty" !! m =
       slots example_world "NotEmpty" !! m).
Proof.
  assert (well_formed (translations_at example_world 2)) as Hwf.
  { unfold well_formed. compute_done. }
  assert (∃ mode r, (mode, r) ∈ translations_at example_world 2 ∧
                    translation_at example_world r !! BASE_LOCALE = None) as Hmissing.
  { exists "INVALID", 12. split; [compute_done | reflexivity]. }
  split; [exact Hwf|]. split; [exact Hmissing|].
  exact (register_handler_installs_up_to_first_missing example_value example_name
           example_world "NotEmpty" 2 Hwf Hmissing).
Defined.

(** C3, as stated, fails: [{Mode.MISSING: {"en": tmpl_en}}] has no ["pl"]
    entry, and the call returns. *)
Lemma en_only_translation_counterexample :
  translations_at example_world 0 = [("MISSING", 10)] ∧
  translation_at example_world 10 = {[ "en" := tmpl_en ]} ∧
  translation_at example_world 10 !! "pl" = None ∧
  (example_register example_world "NotEmpty" 0).2 = Return tt ∧
  (∀ e, (example_register example_world "NotEmpty" 0).2 ≠ Raise e).
Proof. repeat split. intros e He. vm_compute in He. discriminate. Qed.

Lemma register_handler_requires_only_base_locale_witness :
  example_value "MISSING" = "MISSING" ∧
  translations_at example_world 0 = [("MISSING", 10)] ∧
  translation_at example_world 10 = {[ "en" := tmpl_en ]} ∧
  translations_at example_world 3 = [("MISSING", 12)] ∧
  translation_at example_world 12 = {[ "pl" := tmpl_pl ]} ∧
  example_register example_world "NotEmpty" 0 =
    (install example_world "NotEmpty" "MISSING" 10, Return tt) ∧
  (∃ msg, example_register example_world "NotEmpty" 3 =
            (example_world, Raise (PipelinePluginI18nException msg)) ∧
          mentions msg "MISSING" ∧ mentions msg "en").
Proof.
  do 5 (split; [reflexivity|]).
  exact (register_handler_requires_only_base_locale example_value example_name
           example_world "NotEmpty" 0 3 "MISSING" 10 12 tmpl_en tmpl_pl
           eq_refl eq_refl eq_refl eq_refl eq_refl).
Defined.

(** Registering [{Mode.MISSING: {"en": tmpl_en, "pl": tmpl_pl}}], then
    [set_locale("fr")] in flow 7: failing in MISSING mode returns
    [tmpl_en(self)]. *)
Lemma resolver_falls_back_to_base_locale_witness :
  let w1 := (example_register example_world "NotEmpty" 1).1 in
  let w2 := (set_locale w1 7 "fr").1 in
  well_formed (translations_at example_world 1) ∧
  example_register example_world "NotEmpty" 1 = (w1, Return tt) ∧
  ("MISSING", 11) ∈ translations_at example_world 1 ∧
  translation_at w2 11 = translation_at example_world 11 ∧
  translation_at example_world 11 !! get_locale w2 7 = None ∧
  ∃ slot base,
    slots w1 "NotEmpty" !! "MISSING" = Some slot ∧
    translation_at example_world 11 !! BASE_LOCALE = Some base ∧
    call_slot w2 7 slot "email" = Return (base "email").
Proof.
  intros w1 w2.
  assert (well_formed (translations_at example_world 1)) as Hwf.
  { unfold well_formed. compute_done. }
  assert (("MISSING", 11) ∈ translations_at example_world 1) as Hin.
  { compute_done. }
  assert (translation_at example_world 11 !! get_locale w2 7 = None) as Hnone.
  { reflexivity. }
  do 4 (split; [done|]). split; [exact Hnone|].
  exact (resolver_falls_back_to_base_locale example_value example_name
           example_world w1 w2 "NotEmpty" 1 "MISSING" 11 7 "email"
           Hwf eq_refl Hin eq_refl Hnone).
Defined.

(** The same registration, then [set_locale("pl")] in flow 7: failing in
    MISSING mode calls [tmpl_pl] and returns [tmpl_pl(self)]. *)
Lemma resolver_uses_current_locale_witness :
  let w1 := (example_register example_world "NotEmpty" 1).1 in
  let w2 := (set_locale w1 7 "pl").1 in
  well_formed (translations_at example_world 1) ∧
  example_register example_world "NotEmpty" 1 = (w1, Return tt) ∧
  ("MISSING", 11) ∈ translations_at example_world 1 ∧
  translation_at w2 11 = translation_at example_world 11 ∧
  translation_at example_world 11 !! get_locale w2 7 = Some tmpl_pl ∧
  slots w1 "NotEmpty" !! "MISSING" = Some (Partial 11) ∧
  select_template w2 7 11 = Return tmpl_pl ∧
  call_slot w2 7 (Partial 11) "email" = Return (tmpl_pl "email").
Proof.
  intros w1 w2.
  assert (well_formed (translations_at example_world 1)) as Hwf.
  { unfold well_formed. compute_done. }
  assert (("MISSING", 11) ∈ translations_at example_world 1) as Hin.
  { compute_done. }
  assert (translation_at example_world 11 !! get_locale w2 7 = Some tmpl_pl) as Hsome.
  { reflexivity. }
  do 4 (split; [done|]). split; [exact Hsome|].
  exact (resolver_uses_current_locale example_value example_name
           example_world w1 w2 "NotEmpty" 1 "MISSING" 11 7 "email" tmpl_pl
           Hwf eq_refl Hin eq_refl Hsome).
Defined.

(** Flow 1 sets ["pl"]; flow 3 is spawned by flow 2, which never set a
    locale: flow 3 reads ["en"]. *)
Lemma get_locale_defaults_to_base_locale_witness :
  (∀ f, CURRENT_LOCALE example_world f = None) ∧
  never_set [SetLocale 1 "pl"; Spawn 2 3] 3 = true ∧
  get_locale (run example_world [SetLocale 1 "pl"; Spawn 2 3]) 3 = "en" ∧
  (∀ (w' : @World string _ _ string string string) f,
     CURRENT_LOCALE w' f = None → get_locale w' f = "en") ∧
  (∀ (w' : @World string _ _ string string string) f l,
     CURRENT_LOCALE w' f = Some l → get_locale w' f = l).
Proof.
  split; [reflexivity|]. split; [reflexivity|].
  exact (get_locale_defaults_to_base_locale example_world
           [SetLocale 1 "pl"; Spawn 2 3] 3 (λ f, eq_refl) eq_refl).
Defined.

(** Flow 1 sets ["pl"]; whatever flow 2 sets and whoever inherits from flow
    1 afterwards, flow 1 reads ["pl"]. *)
Lemma set_locale_then_get_locale_witness :
  undisturbed 1 [SetLocale 2 "en"; Spawn 1 3] ∧
  (set_locale example_world 1 "pl").2 = tt ∧
  get_locale (set_locale example_world 1 "pl").1 1 = "pl" ∧
  get_locale (run (set_locale example_world 1 "pl").1 [SetLocale 2 "en"; Spawn 1 3]) 1
    = "pl".
Proof.
  assert (undisturbed 1 [SetLocale 2 "en"; Spawn 1 3]) as Hquiet.
  { unfold undisturbed. compute_done. }
  split; [exact Hquiet|].
  exact (set_locale_then_get_locale example_world 1 "pl"
           [SetLocale 2 "en"; Spawn 1 3] Hquiet).
Defined.

(** Flow 1 is A, flow 2 is B; B reads ["en"] right after A's call. *)
Lemma locale_isolated_between_flows_witness :
  1 ≠ 2 ∧
  CURRENT_LOCALE example_world 2 = None ∧
  undisturbed 2 [Spawn 1 3] ∧
  undisturbed 2 [SetLocale 3 "en"] ∧
  [Spawn 1 3; SetLocale 1 "pl"] `prefix_of`
    [Spawn 1 3] ++ SetLocale 1 "pl" :: [SetLocale 3 "en"] ∧
  get_locale (run example_world [Spawn 1 3; SetLocale 1 "pl"]) 2 = "en".
Proof.
  assert (1 ≠ 2) as Hne by lia.
  assert (undisturbed 2 [Spawn 1 3]) as Hbefore.
  { unfold undisturbed. compute_done. }
  assert (undisturbed 2 [SetLocale 3 "en"]) as Hafter.
  { unfold undisturbed. compute_done. }
  assert ([Spawn 1 3; SetLocale 1 "pl"] `prefix_of`
            [Spawn 1 3] ++ SetLocale 1 "pl" :: [SetLocale 3 "en"]) as Hseen.
  { by exists [SetLocale 3 "en"]. }
  do 2 (split; [done|]). do 2 (split; [assumption|]). split; [exact Hseen|].
  exact (locale_isolated_between_flows example_world 1 2 [Spawn 1 3]
           [SetLocale 3 "en"] [Spawn 1 3; SetLocale 1 "pl"]
           Hne eq_refl Hbefore Hafter Hseen).
Defined.

(** An empty [translations] changes nothing; registering MISSING alone
    leaves the slot of INVALID. *)
Lemma register_handler_keeps_other_modes_witness :
  example_register example_world "NotEmpty" 99 = (example_world, Return tt) ∧
  slots (example_register example_world "NotEmpty" 1).1 "NotEmpty" !! "INVALID" =
    slots example_world "NotEmpty" !! "INVALID".
Proof.
  split.
  - apply (proj1 (register_handler_keeps_other_modes example_value example_name
                    example_world "NotEmpty" 99)). reflexivity.
  - apply (proj2 (register_handler_keeps_other_modes example_value example_name
                    example_world "NotEmpty" 1) _ eq_refl).
    compute_done.
Defined.

(** [{Mode.MISSING: {"pl": tmpl_pl}}] raises;
    [{Mode.MISSING: {"en": tmpl_en, "pl": tmpl_pl}}] returns. *)
Lemma register_handler_raises_iff_base_locale_missing_witness :
  (∃ e, (example_register example_world "NotEmpty" 3).2 = Raise e) ∧
  (example_register example_world "NotEmpty" 1).2 = Return tt.
Proof.
  split.
  - apply (proj1 (register_handler_raises_iff_base_locale_missing
                    example_value example_name example_world "NotEmpty" 3)).
    exists "MISSING", 12. split; [compute_done | reflexivity].
  - apply (proj2 (proj2 (register_handler_raises_iff_base_locale_missing
                           example_value example_name example_world "NotEmpty" 1))).
    intros mode r Hin. apply list_elem_of_singleton in Hin as [= -> ->].
    by eexists.
Defined.

(** C9, as stated, fails: [Sub] defines no [ERROR_TEMPLATES] of its own, so
    [Sub.ERROR_TEMPLATES] is the dict of [Base].  Registering for [Sub]
    returns, and the slot of MISSING of [Base], another class, holds the
    resolver instead of the host's template. *)
Lemma shared_table_counterexample :
  "Base" ≠ "Sub" ∧
  ERROR_TEMPLATES_of example_world "Sub" = ERROR_TEMPLATES_of example_world "Base" ∧
  (example_register example_world "Sub" 1).2 = Return tt ∧
  ERROR_TEMPLATES example_world "Base" !! "MISSING" = Some (Template tmpl_default) ∧
  ERROR_TEMPLATES (example_register example_world "Sub" 1).1 "Base" !! "MISSING" =
    Some (Partial 11) ∧
  ERROR_TEMPLATES (example_register example_world "Sub" 1).1 "Base" ≠
    ERROR_TEMPLATES example_world "Base".
Proof.
  repeat split.
  - discriminate.
  - intros Heq. apply (f_equal (λ table, table !! "MISSING")) in Heq.
    vm_compute in Heq. discriminate.
Qed.

(** Registering for [Sub] leaves the locale of every flow, the caller's
    dicts and the table of [IsEmail], which has a dict of its own; [Base]
    has the table of [Sub]. *)
Lemma register_handler_frame_up_to_shared_table_witness :
  CURRENT_LOCALE (example_register example_world "Sub" 2).1 =
    CURRENT_LOCALE example_world ∧
  translations_at (example_register example_world "Sub" 2).1 2 =
    translations_at example_world 2 ∧
  translation_at (example_register example_world "Sub" 2).1 10 =
    translation_at example_world 10 ∧
  ERROR_TEMPLATES (example_register example_world "Sub" 2).1 "IsEmail" =
    ERROR_TEMPLATES example_world "IsEmail" ∧
  ERROR_TEMPLATES (example_register example_world "Sub" 2).1 "Base" =
    ERROR_TEMPLATES (example_register example_world "Sub" 2).1 "Sub".
Proof.
  destruct (register_handler_frame_up_to_shared_table example_value example_name
              example_world "Sub" 2)
    as (Hlocale & Htranslations & Htranslation & _ & Hother & Hshared).
  split; [exact Hlocale|].
  split; [exact (f_equal (λ dicts, dicts 2) Htranslations)|].
  split; [exact (f_equal (λ dicts, dicts 10) Htranslation)|].
  split; [apply Hother; discriminate | apply Hshared; reflexivity].
Defined.

(** Registering [{MISSING: 11, INVALID: 10}] and then [{MISSING: 10}]:
    MISSING has the resolver of the second table, INVALID that of the
    first. *)
Lemma register_handler_twice_witness :
  let w1 := (example_register more_world "NotEmpty" 4).1 in
  let w2 := (example_register w1 "NotEmpty" 0).1 in
  well_formed (translations_at more_world 4) ∧
  well_formed (translations_at more_world 0) ∧
  example_register more_world "NotEmpty" 4 = (w1, Return tt) ∧
  example_register w1 "NotEmpty" 0 = (w2, Return tt) ∧
  (∀ m r, (m, r) ∈ translations_at more_world 0 →
     slots w2 "NotEmpty" !! m = Some (Partial r)) ∧
  (∀ m r, (m, r) ∈ translations_at more_world 4 →
     m ∉ modes (translations_at more_world 0) →
     slots w2 "NotEmpty" !! m = Some (Partial r)) ∧
  (∀ m, m ∉ modes (translations_at more_world 4) →
     m ∉ modes (translations_at more_world 0) →
     slots w2 "NotEmpty" !! m = slots more_world "NotEmpty" !! m).
Proof.
  intros w1 w2.
  assert (well_formed (translations_at more_world 4)) as Hwf1.
  { unfold well_formed. compute_done. }
  assert (well_formed (translations_at more_world 0)) as Hwf2.
  { unfold well_formed. compute_done. }
  do 2 (split; [assumption|]). do 2 (split; [reflexivity|]).
  exact (register_handler_twice example_value example_name
           more_world w1 w2 "NotEmpty" 4 0 Hwf1 Hwf2 eq_refl eq_refl).
Defined.

Lemma register_handler_again_same_behaviour_witness :
  let w1 := (example_register example_world "NotEmpty" 1).1 in
  example_register example_world "NotEmpty" 1 = (w1, Return tt) ∧
  ∃ w2, example_register w1 "NotEmpty" 1 = (w2, Return tt) ∧
    ∀ mode,
      match slots w1 "NotEmpty" !! mode, slots w2 "NotEmpty" !! mode with
      | Some before, Some after =>
          ∀ (w' : @World string _ _ string string string) flow (self : string),
            call_slot w' flow after self = call_slot w' flow before self
      | None, None => True
      | _, _ => False
      end.
Proof.
  intros w1. split; [reflexivity|].
  exact (register_handler_again_same_behaviour example_value example_name
           example_world w1 "NotEmpty" 1 eq_refl).
Defined.

(** [{MISSING: 10, INVALID: 12}] raises after installing MISSING;
    registering [{MISSING: 11, INVALID: 10}] afterwards gives the table of
    that registration alone. *)
Lemma register_handler_after_earlier_call_witness :
  let w_alone := (example_register more_world "NotEmpty" 4).1 in
  (∀ m, m ∈ modes (translations_at more_world 2) →
        m ∈ modes (translations_at more_world 4)) ∧
  example_register more_world "NotEmpty" 4 = (w_alone, Return tt) ∧
  ∃ w_both,
    example_register (example_register more_world "NotEmpty" 2).1 "NotEmpty" 4 =
      (w_both, Return tt) ∧
    slots w_both "NotEmpty" = slots w_alone "NotEmpty".
Proof.
  intros w_alone.
  assert (∀ m, m ∈ modes (translations_at more_world 2) →
               m ∈ modes (translations_at more_world 4)) as Hcover.
  { intros m Hm. exact Hm. }
  split; [exact Hcover|]. split; [reflexivity|].
  exact (register_handler_after_earlier_call example_value example_name
           more_world w_alone "NotEmpty" 2 4 Hcover eq_refl).
Defined.

Lemma register_handler_order_irrelevant_witness :
  let w1 := (example_register more_world "NotEmpty" 4).1 in
  well_formed (translations_at more_world 4) ∧
  translations_at more_world 5 ≡ₚ translations_at more_world 4 ∧
  example_register more_world "NotEmpty" 4 = (w1, Return tt) ∧
  ∃ w2, example_register more_world "NotEmpty" 5 = (w2, Return tt) ∧
        slots w2 "NotEmpty" = slots w1 "NotEmpty".
Proof.
  intros w1.
  assert (well_formed (translations_at more_world 4)) as Hwf.
  { unfold well_formed. compute_done. }
  assert (translations_at more_world 5 ≡ₚ translations_at more_world 4) as Hperm.
  { apply perm_swap. }
  split; [exact Hwf|]. split; [exact Hperm|]. split; [reflexivity|].
  exact (register_handler_order_irrelevant example_value example_name
           more_world w1 "NotEmpty" 4 5 Hwf Hperm eq_refl).
Defined.


(** Flow 7 never set a locale: the resolver of MISSING returns
    [tmpl_en(self)]. *)
Lemma registered_resolver_without_locale_witness :
  let w1 := (example_register example_world "NotEmpty" 1).1 in
  well_formed (translations_at example_world 1) ∧
  example_register example_world "NotEmpty" 1 = (w1, Return tt) ∧
  ("MISSING", 11) ∈ translations_at example_world 1 ∧
  translation_at w1 11 = translation_at example_world 11 ∧
  CURRENT_LOCALE w1 7 = None ∧
  ∃ base,
    translation_at example_world 11 !! "en" = Some base ∧
    call_slot w1 7 (Partial 11) "email" = Return (base "email").
Proof.
  intros w1.
  assert (well_formed (translations_at example_world 1)) as Hwf.
  { unfold well_formed. compute_done. }
  assert (("MISSING", 11) ∈ translations_at example_world 1) as Hin.
  { compute_done. }
  split; [exact Hwf|]. split; [reflexivity|]. split; [exact Hin|].
  do 2 (split; [reflexivity|]).
  exact (registered_resolver_without_locale example_value example_name
           example_world w1 w1 "NotEmpty" 1 "MISSING" 11 7 "email"
           Hwf eq_refl Hin eq_refl eq_refl).
Defined.

(** After the registration the caller deletes the ["en"] entry of the dict;
    with the locale ["pl"], which the dict still has, the resolver raises
    [KeyError]. *)
Lemma registered_resolver_raises_without_base_locale_witness :
  let w1 := (example_register example_world "NotEmpty" 1).1 in
  let w2 := caller_writes (set_locale w1 7 "pl").1 11 {[ "pl" := tmpl_pl ]} in
  well_formed (translations_at example_world 1) ∧
  example_register example_world "NotEmpty" 1 = (w1, Return tt) ∧
  ("MISSING", 11) ∈ translations_at example_world 1 ∧
  translation_at w2 11 !! BASE_LOCALE = None ∧
  translation_at w2 11 !! get_locale w2 7 = Some tmpl_pl ∧
  slots w1 "NotEmpty" !! "MISSING" = Some (Partial 11) ∧
  call_slot w2 7 (Partial 11) "email" = Raise (KeyError "en").
Proof.
  intros w1 w2.
  assert (well_formed (translations_at example_world 1)) as Hwf.
  { unfold well_formed. compute_done. }
  assert (("MISSING", 11) ∈ translations_at example_world 1) as Hin.
  { compute_done. }
  split; [exact Hwf|]. split; [reflexivity|]. split; [exact Hin|].
  do 2 (split; [reflexivity|]).
  exact (registered_resolver_raises_without_base_locale example_value example_name
           example_world w1 w2 "NotEmpty" 1 "MISSING" 11 7 "email"
           Hwf eq_refl Hin eq_refl).
Defined.

(** After the registration the caller adds a ["de"] entry; with the locale
    ["de"] the resolver calls it. *)
Lemma registered_resolver_reads_dict_at_call_time_witness :
  let w1 := (example_register example_world "NotEmpty" 1).1 in
  let w2 := caller_writes (set_locale w1 7 "de").1 11
              (<[ "de" := tmpl_default ]> (example_translation 11)) in
  well_formed (translations_at example_world 1) ∧
  example_register example_world "NotEmpty" 1 = (w1, Return tt) ∧
  ("MISSING", 11) ∈ translations_at example_world 1 ∧
  translation_at w2 11 =
    <[get_locale w2 7 := tmpl_default]> (translation_at example_world 11) ∧
  slots w1 "NotEmpty" !! "MISSING" = Some (Partial 11) ∧
  call_slot w2 7 (Partial 11) "email" = Return (tmpl_default "email").
Proof.
  intros w1 w2.
  assert (well_formed (translations_at example_world 1)) as Hwf.
  { unfold well_formed. compute_done. }
  assert (("MISSING", 11) ∈ translations_at example_world 1) as Hin.
  { compute_done. }
  split; [exact Hwf|]. split; [reflexivity|]. split; [exact Hin|].
  split; [reflexivity|].
  exact (registered_resolver_reads_dict_at_call_time example_value example_name
           example_world w1 w2 "NotEmpty" 1 "MISSING" 11 7 "email" tmpl_default
           Hwf eq_refl Hin eq_refl).
Defined.

(** Flow 2 has the locale ["pl"]; flow 1 sets ["en"] and flow 3 starts from
    the context of flow 2: the resolver still returns the same in flow 2. *)
Lemma resolver_isolated_between_flows_witness :
  let w := (set_locale example_world 2 "pl").1 in
  undisturbed 2 [SetLocale 1 "en"; Spawn 2 3] ∧
  call_slot (run w [SetLocale 1 "en"; Spawn 2 3]) 2 (Partial 11) "email" =
  call_slot w 2 (Partial 11) "email".
Proof.
  intros w.
  assert (undisturbed 2 [SetLocale 1 "en"; Spawn 2 3]) as Hquiet.
  { unfold undisturbed. compute_done. }
  split; [exact Hquiet|].
  exact (resolver_isolated_between_flows w [SetLocale 1 "en"; Spawn 2 3] 2
           (Partial 11) "email" Hquiet).
Defined.

Lemma message_determines_mode_witness :
  missing_base_locale_message example_value example_name "NotEmpty" "MISSING" =
  missing_base_locale_message example_value example_name "NotEmpty" "MISSING" ∧
  example_value "MISSING" = example_value "MISSING".
Proof.
  split; [reflexivity|].
  exact (message_determines_mode example_value example_name
           "NotEmpty" "MISSING" "MISSING" eq_refl).
Defined.
